(** * Local Thompson sampling with Normal beliefs

    A shallow embedding of the class [LTS] of [examples/simple_lts.py]: a
    multi-armed bandit that keeps one Normal belief (mean, standard deviation)
    per arm, selects the arm whose sampled value is largest, and revises the
    belief of the arm pulled last with the Normal-Normal conjugate update.

    The methods use only [*], [+], [/], [math.sqrt] and [>] on Python floats.
    They are embedded once, over an arithmetic interface [Arith], and the
    interface is instantiated twice:
    - [binary64]: IEEE 754 double precision, the arithmetic of Python's
      [float], through the kernel's primitive floats (it computes);
    - [exact]: the real numbers.  It is no arithmetic of the code: it is
      kept to check the order laws the scan of [select] relies on, and to
      cross-check the values of the scenario of the specification.
    Every property of the conjugate update that depends on the arithmetic is
    stated and proved in [binary64].

    Exceptions are values: a method returns [Ok] or [Raise].  The pseudorandom
    generator behind [random.gauss] is a state of an abstract type that
    [select] threads through its draws. *)

From Stdlib Require Import ZArith Reals ROrderedType Lra Floats.
From Stdlib Require String Ascii Uint63.
Import String.StringSyntax.
Delimit Scope string_scope with string.
From stdpp Require Import base list relations.

#[local] Set Warnings "-inexact-float".

(** ** Outcomes of a call *)

Inductive exn : Set :=
| TypeError          (* a list indexed by [None] *)
| IndexError         (* a list index out of range *)
| ValueError         (* [max] of an empty sequence, [math.sqrt] of a negative *)
| ZeroDivisionError. (* [/] by zero *)

Inductive result (A : Type) : Type :=
| Ok (a : A)
| Raise (e : exn).
Arguments Ok {A} a.
Arguments Raise {A} e.

#[global] Instance result_ret : MRet result := fun A a => Ok a.
#[global] Instance result_bind : MBind result := fun A B k r =>
  match r with
  | Ok a => k a
  | Raise e => Raise e
  end.

(** ** The arithmetic of the floats *)

Class Arith (T : Type) : Type := {
  zero : T;
  fadd : T -> T -> T;
  fmul : T -> T -> T;
  fdiv : T -> T -> T;          (* the quotient when the divisor is not zero *)
  fsqrt : T -> T;              (* the root when the argument is not negative *)
  feqb : T -> T -> bool;       (* [==] *)
  fltb : T -> T -> bool        (* [<] *)
}.

(** The laws of [<] that the scan of [max] relies on.  They hold in both
    instances below (a NaN is below nothing and nothing is below it). *)
Class OrderLaws (T : Type) `{Arith T} : Prop := {
  fltb_irrefl : forall x : T, fltb x x = false;
  fltb_trans : forall x y z : T, fltb x y = true -> fltb y z = true -> fltb x z = true
}.

Definition Rltb (x y : R) : bool := if Rlt_dec x y then true else false.

(** Real arithmetic. *)
#[global] Instance exact : Arith R := {|
  zero := 0%R;
  fadd := Rplus;
  fmul := Rmult;
  fdiv := Rdiv;
  fsqrt := R_sqrt.sqrt;
  feqb := Reqb;
  fltb := Rltb
|}.

(** IEEE 754 binary64, rounding to nearest even: Python's [float]. *)
#[global] Instance binary64 : Arith float := {|
  zero := 0%float;
  fadd := PrimFloat.add;
  fmul := PrimFloat.mul;
  fdiv := PrimFloat.div;
  fsqrt := PrimFloat.sqrt;
  feqb := PrimFloat.eqb;
  fltb := PrimFloat.ltb
|}.

Section Bandit.
Context {T : Type} `{Arith T}.

Definition flt (x y : T) : Prop := fltb x y = true.

(** [x / y]: raises [ZeroDivisionError] when [y == 0]. *)
Definition truediv (x y : T) : result T :=
  if feqb y zero then Raise ZeroDivisionError else Ok (fdiv x y).

(** [math.sqrt(x)]: raises [ValueError] when [x < 0]. *)
Definition math_sqrt (x : T) : result T :=
  if fltb x zero then Raise ValueError else Ok (fsqrt x).

(** An arm's belief: the tuple (mean, standard deviation). *)
Definition belief : Type := T * T.

(** The attributes of an [LTS] object. *)
Record LTS : Type := mkLTS {
  _arms : list belief;
  _observation_noise : T;
  _last_arm_pulled : option nat
}.

(** [LTS.__init__]: no argument is checked; [range(0, N)] is empty when
    [N <= 0]. *)
Definition __init__ (N : Z) (init_mu init_sd observation_noise : T) : result LTS :=
  Ok {| _arms := replicate (Z.to_nat N) (init_mu, init_sd);
        _observation_noise := observation_noise;
        _last_arm_pulled := None |}.

(** [LTS.update]. *)
Definition update (reward : T) (s : LTS) : result LTS :=
  i ← match _last_arm_pulled s with
      | None => Raise TypeError
      | Some i => Ok i
      end;
  arm ← match _arms s !! i with
        | None => Raise IndexError
        | Some arm => Ok arm
        end;
  let arm_mean := arm.1 in
  let arm_variance := fmul arm.2 arm.2 in
  let ob_variance := fmul (_observation_noise s) (_observation_noise s) in
  let mu := fadd (fmul arm_variance reward) (fmul ob_variance arm_mean) in
  mu ← truediv mu (fadd arm_variance ob_variance);
  let var := fmul arm_variance ob_variance in
  var ← truediv var (fadd arm_variance ob_variance);
  sd ← math_sqrt var;
  Ok {| _arms := <[i := (mu, sd)]> (_arms s);
        _observation_noise := _observation_noise s;
        _last_arm_pulled := _last_arm_pulled s |}.


(** [enumerate(l)], counting from [start]. *)
Fixpoint enumerate_from {A : Type} (start : nat) (l : list A) : list (nat * A) :=
  match l with
  | [] => []
  | x :: rest => (start, x) :: enumerate_from (S start) rest
  end.

Section Select.
(** [random.gauss(mu, sigma)] from a generator state [g]: the value drawn
    and the next state. *)
Context {G : Type} (gauss : T -> T -> G -> T * G).

(** The key of [select]: [lambda x: random.gauss( *x[1])]. *)
Definition key (x : nat * belief) (g : G) : T * G := gauss x.2.1 x.2.2 g.

(** The loop of [max(iterable, key=...)]: one key per item, in order; an
    item replaces the current one only when its key is strictly greater. *)
Fixpoint max_scan (items : list (nat * belief)) (maxitem : nat * belief)
    (maxval : T) (g : G) : (nat * belief) * G :=
  match items with
  | [] => (maxitem, g)
  | item :: rest =>
      let '(val, g') := key item g in
      if fltb maxval val
      then max_scan rest item val g'
      else max_scan rest maxitem maxval g'
  end.

Definition py_max (items : list (nat * belief)) (g : G)
    : result ((nat * belief) * G) :=
  match items with
  | [] => Raise ValueError
  | item :: rest => let '(val, g') := key item g in Ok (max_scan rest item val g')
  end.

(** [LTS.select]: the index returned, the object and the generator after
    the call. *)
Definition select (s : LTS) (g : G) : result (nat * LTS * G) :=
  '(item, g') ← py_max (enumerate_from 0 (_arms s)) g;
  Ok (item.1,
      {| _arms := _arms s;
         _observation_noise := _observation_noise s;
         _last_arm_pulled := Some item.1 |},
      g').

(** The values one call of [select] draws, in the order of the arms. *)
Fixpoint draws (arms : list belief) (g : G) : list T :=
  match arms with
  | [] => []
  | arm :: rest => let '(val, g') := gauss arm.1 arm.2 g in val :: draws rest g'
  end.

(** One successful call of a method. *)
Inductive step : LTS * G -> LTS * G -> Prop :=
| step_select s g i s' g' :
    select s g = Ok (i, s', g') -> step (s, g) (s', g')
| step_update s g reward s' :
    update reward s = Ok s' -> step (s, g) (s', g).
End Select.

(** ** The properties of the specification, for an arithmetic *)

(** [i] is the first index at which [xs] is largest: nothing in [xs] is
    greater than [xs[i]], and [xs[i]] does not occur before [i]. *)
Definition first_argmax (xs : list T) (i : nat) : Prop :=
  exists xi, xs !! i = Some xi /\
    (forall j xj, xs !! j = Some xj -> fltb xi xj = false) /\
    (forall j xj, (j < i)%nat -> xs !! j = Some xj -> xj <> xi).

(** [x] is within [eps] of [y]. *)
Definition within (eps x y : T) : Prop :=
  flt x (fadd y eps) /\ flt y (fadd x eps).

(** The arm [i] is the one [update] will revise, its belief is [(m, sd)],
    and [sd] and the observation noise are positive. *)
Definition selected (s : LTS) (i : nat) (m sd : T) : Prop :=
  _last_arm_pulled s = Some i /\ _arms s !! i = Some (m, sd) /\
  flt zero sd /\ flt zero (_observation_noise s).




(** Every standard deviation of the object is positive. *)
Definition sd_positive (s : LTS) : Prop :=
  Forall (fun arm : belief => flt zero arm.2) (_arms s).

(** The invariant of the data model: positive at construction, positive
    after every sequence of calls. *)
Definition sd_always_positive : Prop :=
  forall (G : Type) (gauss : T -> T -> G -> T * G) N init_mu init_sd observation_noise,
    flt zero init_sd -> flt zero observation_noise ->
    exists s0, __init__ N init_mu init_sd observation_noise = Ok s0 /\
      forall g s g', rtc (step gauss) (s0, g) (s, g') -> sd_positive s.

(** The scenario: one call [update(reward)] leaves the arm pulled last with
    a mean within [tol] of [mean_expected] and a standard deviation within
    [tol] of [sd_expected]. *)
Definition update_yields (s : LTS) (reward tol mean_expected sd_expected : T) : Prop :=
  exists i s' m' sd', _last_arm_pulled s = Some i /\ update reward s = Ok s' /\
    _arms s' !! i = Some (m', sd') /\
    within tol m' mean_expected /\ within tol sd' sd_expected.
End Bandit.

Arguments LTS T : clear implicits.
Arguments belief T : clear implicits.

(** ** A sampler and the scenario of the specification *)

(** [random.gauss(mu, sigma)] is [mu + z * sigma] for a standard normal
    deviate [z]; here the deviates are read from a list fixed in advance. *)
Definition deviates {T : Type} `{Arith T} (mu sigma : T) (g : list T) : T * list T :=
  match g with
  | [] => (mu, [])
  | z :: g' => (fadd mu (fmul z sigma), g')
  end.

(** A sampler that returns the same value whatever the belief. *)
Definition constant_sampler {T : Type} (v : T) (mu sigma : T) (g : unit) : T * unit :=
  (v, g).

(** Three arms with the prior (3.5, 3.0), noise 0.1, arm [i] pulled last. *)
Definition scenario (i : nat) : LTS float :=
  {| _arms := replicate 3 (3.5, 3.0)%float;
     _observation_noise := 0.1%float;
     _last_arm_pulled := Some i |}.

Definition scenario_exact (i : nat) : LTS R :=
  {| _arms := replicate 3 (3.5, 3)%R;
     _observation_noise := 0.1%R;
     _last_arm_pulled := Some i |}.

(** One arm with belief [(m, sd)], pulled last. *)
Definition one_arm {T : Type} (m sd observation_noise : T) : LTS T :=
  {| _arms := [(m, sd)];
     _observation_noise := observation_noise;
     _last_arm_pulled := Some 0%nat |}.


(** ** Sequences of calls *)

(** [update(r)] for each [r] of [rewards], in order. *)
Fixpoint update_seq {T : Type} `{Arith T} (rewards : list T) (s : LTS T)
    : result (LTS T) :=
  match rewards with
  | [] => Ok s
  | reward :: rest => s' ← update reward s; update_seq rest s'
  end.

(** The generator after one value has been drawn for each arm, in order. *)
Fixpoint generator_after {T G : Type} (gauss : T -> T -> G -> T * G)
    (arms : list (belief T)) (g : G) : G :=
  match arms with
  | [] => g
  | arm :: rest => generator_after gauss rest (gauss arm.1 arm.2 g).2
  end.

(** The standard deviations of the arms, in order. *)
Definition deviations {T : Type} (s : LTS T) : list T := (fun arm => arm.2) <$> _arms s.

(** Two objects that agree on the arm pulled last, the noise and the
    standard deviations. *)
Definition same_spread {T : Type} (s t : LTS T) : Prop :=
  _last_arm_pulled s = _last_arm_pulled t /\
  _observation_noise s = _observation_noise t /\
  deviations s = deviations t.

(** ** The simulation of the script

    The statements of [examples/simple_lts.py] after the class, in binary64.
    The file object is the list of the strings written to it and the standard
    output the list of the strings printed.  The two calls of [str.format] on
    floats are parameters: [format_summary c t ob] stands for
    ["Cumulative reward: {:.2f} after {} rounds using ob: {}".format(c, t, ob)]
    and [format_best ob score] for
    ["Obervasion noise: {} with ighest score: {}".format(ob, score)].
    An exception ends the script: the result is [Raise]. *)

Module Simulation.

(** [highestObsScore] and [highestObs]: the int 0 they start with, or the
    float a sweep assigned. *)
Inductive best : Set :=
| Zero
| Seen (x : float).

(** [b < x] for [b] the int 0 or a float. *)
Definition best_ltb (b : best) (x : float) : bool :=
  match b with
  | Zero => PrimFloat.ltb 0 x
  | Seen y => PrimFloat.ltb y x
  end.

(** The globals the loops assign. *)
Record globals : Type := mkGlobals {
  datalist : list String.string;
  FILE : list String.string;
  saveNumber : Z;
  cumulative_reward : float;
  highestObsScore : best;
  highestObs : best;
  observation_noise : float;
  stdout : list String.string
}.

(** The environment: [arms = [arm1, arm2, arm3]]. *)
Definition arms : list (float * float) := [(5.0, 2.0); (1.0, 1.0); (2.0, 2.0)]%float.

Definition T : nat := 1000.
Definition ob_n : nat := 10.
Definition init_mean_for_bandits : float := 3.5.
Definition init_sd_for_bandits : float := 3.0.

Definition newline : String.string :=
  String.String (Ascii.ascii_of_nat 10) String.EmptyString.

(** The globals before ["Starting simulation."] is printed. *)
Definition initial : globals :=
  {| datalist := [];
     FILE := [];
     saveNumber := 0;
     cumulative_reward := 0;
     highestObsScore := Zero;
     highestObs := Zero;
     observation_noise := 0.1;
     stdout := [] |}.

(** [FILE.writelines(datalist); del datalist[:]; saveNumber = 0]. *)
Definition flush (st : globals) : globals :=
  {| datalist := [];
     FILE := FILE st ++ datalist st;
     saveNumber := 0;
     cumulative_reward := cumulative_reward st;
     highestObsScore := highestObsScore st;
     highestObs := highestObs st;
     observation_noise := observation_noise st;
     stdout := stdout st |}.

(** [saveNumber = saveNumber + 1] and the flush when it exceeds 500. *)
Definition count (st : globals) : globals :=
  let st1 :=
    {| datalist := datalist st;
       FILE := FILE st;
       saveNumber := saveNumber st + 1;
       cumulative_reward := cumulative_reward st;
       highestObsScore := highestObsScore st;
       highestObs := highestObs st;
       observation_noise := observation_noise st;
       stdout := stdout st |} in
  if (500 <? saveNumber st1)%Z then flush st1 else st1.

(** [cumulative_reward += reward]. *)
Definition earn (reward : float) (st : globals) : globals :=
  {| datalist := datalist st;
     FILE := FILE st;
     saveNumber := saveNumber st;
     cumulative_reward := cumulative_reward st + reward;
     highestObsScore := highestObsScore st;
     highestObs := highestObs st;
     observation_noise := observation_noise st;
     stdout := stdout st |}.

(** The end of a sweep: the best score so far, the summary line appended to
    [datalist], the next observation noise. *)
Definition report (format_summary : float -> Z -> float -> String.string)
    (st : globals) : globals :=
  let better := best_ltb (highestObsScore st) (cumulative_reward st) in
  {| datalist := datalist st ++
       [String.append
          (format_summary (cumulative_reward st) (Z.of_nat T) (observation_noise st))
          (String.append newline newline)];
     FILE := FILE st;
     saveNumber := saveNumber st;
     cumulative_reward := cumulative_reward st;
     highestObsScore :=
       if better then Seen (cumulative_reward st) else highestObsScore st;
     highestObs :=
       if better then Seen (observation_noise st) else highestObs st;
     observation_noise := observation_noise st + 0.1;
     stdout := stdout st |}.

Section Loops.
Context {G : Type} (gauss : float -> float -> G -> float * G).
Context (format_summary : float -> Z -> float -> String.string).
Context (format_best : best -> best -> String.string).

(** The body of [for t in range(T)]. *)
Definition round (bandit : LTS float) (st : globals) (g : G)
    : result (LTS float * globals * G) :=
  '(selected_arm, bandit, g) ← select gauss bandit g;
  let st := count st in
  arm ← match arms !! selected_arm with
        | None => Raise IndexError
        | Some arm => Ok arm
        end;
  let '(reward, g) := gauss arm.1 arm.2 g in
  let st := earn reward st in
  bandit ← update reward bandit;
  Ok (bandit, st, g).

Fixpoint rounds (n : nat) (bandit : LTS float) (st : globals) (g : G)
    : result (LTS float * globals * G) :=
  match n with
  | O => Ok (bandit, st, g)
  | S k => '(bandit, st, g) ← round bandit st g; rounds k bandit st g
  end.

(** The body of [for noise in range(ob_n)]. *)
Definition sweep (st : globals) (g : G) : result (globals * G) :=
  let st :=
    {| datalist := datalist st;
       FILE := FILE st;
       saveNumber := saveNumber st;
       cumulative_reward := 0;
       highestObsScore := highestObsScore st;
       highestObs := highestObs st;
       observation_noise := observation_noise st;
       stdout := stdout st |} in
  bandit ← __init__ (Z.of_nat (length arms)) init_mean_for_bandits init_sd_for_bandits
             (observation_noise st);
  '(_, st, g) ← rounds T bandit st g;
  Ok (report format_summary st, g).

Fixpoint sweeps (n : nat) (st : globals) (g : G) : result (globals * G) :=
  match n with
  | O => Ok (st, g)
  | S k => '(st, g) ← sweep st g; sweeps k st g
  end.

(** The script, from ["Starting simulation."] to [FILE.close()]. *)
Definition simulation (g : G) : result (globals * G) :=
  let st :=
    {| datalist := datalist initial;
       FILE := FILE initial;
       saveNumber := saveNumber initial;
       cumulative_reward := cumulative_reward initial;
       highestObsScore := highestObsScore initial;
       highestObs := highestObs initial;
       observation_noise := observation_noise initial;
       stdout := stdout initial ++ ["Starting simulation."%string] |} in
  '(st, g) ← sweeps ob_n st g;
  let st :=
    {| datalist := datalist st ++
         [String.append "Done with the simulation."%string newline];
       FILE := FILE st;
       saveNumber := saveNumber st;
       cumulative_reward := cumulative_reward st;
       highestObsScore := highestObsScore st;
       highestObs := highestObs st;
       observation_noise := observation_noise st;
       stdout := stdout st ++
         ["Done with the simulation."%string;
          format_best (highestObs st) (highestObsScore st)] |} in
  Ok ({| datalist := [];
         FILE := FILE st ++ datalist st;
         saveNumber := saveNumber st;
         cumulative_reward := cumulative_reward st;
         highestObsScore := highestObsScore st;
         highestObs := highestObs st;
         observation_noise := observation_noise st;
         stdout := stdout st |}, g).
End Loops.

(** The observation noise of [n] sweeps in a row, from [ob]. *)
Fixpoint noises (n : nat) (ob : float) : list float :=
  match n with
  | O => []
  | S k => ob :: noises k (ob + 0.1)
  end.

(** The summary line of a sweep that earned [c] with the noise [ob]. *)
Definition summary (format_summary : float -> Z -> float -> String.string)
    (c ob : float) : String.string :=
  String.append (format_summary c (Z.of_nat T) ob) (String.append newline newline).

End Simulation.

(** Two formats without content, for running the simulation. *)
Definition blank_summary (c : float) (t : Z) (ob : float) : String.string :=
  "Cumulative reward"%string.

Definition blank_best (ob score : Simulation.best) : String.string :=
  "Obervasion noise"%string.

(** ** Beliefs with one decimal, in binary64 *)




(** Every standard deviation of the object is zero, positive or NaN: none
    is below zero. *)
Definition sd_not_negative (s : LTS float) : Prop :=
  Forall (fun arm : belief float => fltb arm.2 zero = false) (_arms s).

(** *** Checks by evaluation

    The three functions below follow the standard deviation and the mean of
    one arm through calls of [update], with the formulas of its body, and
    test at each call that it returns and what the belief has become. *)

Section Checks.
Local Open Scope float_scope.



End Checks.

(** * Proofs *)

(** ** The order of the two arithmetics *)

Lemma Rltb_lt (x y : R) : Rltb x y = true <-> (x < y)%R.
Proof. unfold Rltb. destruct (Rlt_dec x y); split; intros; (done || lra). Qed.

Lemma Rltb_ge (x y : R) : Rltb x y = false <-> (y <= x)%R.
Proof. unfold Rltb. destruct (Rlt_dec x y); split; intros; (done || lra). Qed.

Lemma Reqb_ne (x y : R) : Reqb x y = false <-> x <> y.
Proof. unfold Reqb. destruct (Req_dec x y); split; intros; (done || congruence). Qed.

Lemma exact_order : OrderLaws R.
Proof.
  split; simpl.
  - intros x. apply Rltb_ge. lra.
  - intros x y z ?%Rltb_lt ?%Rltb_lt. apply Rltb_lt. lra.
Qed.

Lemma SFltb_irrefl (x : spec_float) : SFltb x x = false.
Proof.
  unfold SFltb, SFcompare.
  destruct x as [s|s| |s m e]; try destruct s; try reflexivity;
    rewrite Z.compare_refl; change (Pos.compare_cont Eq m m) with (Pos.compare m m);
    rewrite Pos.compare_refl; reflexivity.
Qed.

Lemma SFltb_trans (x y z : spec_float) :
  SFltb x y = true -> SFltb y z = true -> SFltb x z = true.
Proof.
  unfold SFltb, SFcompare.
  destruct x as [s1|s1| |s1 m1 e1], y as [s2|s2| |s2 m2 e2], z as [s3|s3| |s3 m3 e3];
    try destruct s1; try destruct s2; try destruct s3; try discriminate; try reflexivity;
    change (Pos.compare_cont Eq) with Pos.compare;
    destruct (Z.compare_spec e1 e2), (Z.compare_spec e2 e3), (Z.compare_spec e1 e3);
    try discriminate; try reflexivity; try lia; subst;
    destruct (Pos.compare_spec m1 m2), (Pos.compare_spec m2 m3), (Pos.compare_spec m1 m3);
    simpl; try discriminate; try reflexivity; try lia.
Qed.

Lemma binary64_order : OrderLaws float.
Proof.
  split; simpl.
  - intros x. rewrite ltb_spec. apply SFltb_irrefl.
  - intros x y z. rewrite !ltb_spec. apply SFltb_trans.
Qed.

#[global] Existing Instances exact_order binary64_order.

(** ** What [update] computes *)

Section UpdateFacts.
Context {T : Type} `{Arith T}.
Implicit Types (s : LTS T) (i : nat).

(** The body of [update] once the arm is found. *)
Lemma update_unfold s reward i mean sd :
  _last_arm_pulled s = Some i -> _arms s !! i = Some (mean, sd) ->
  let on := _observation_noise s in
  let total := fadd (fmul sd sd) (fmul on on) in
  let var := fdiv (fmul (fmul sd sd) (fmul on on)) total in
  update reward s =
    if feqb total zero then Raise ZeroDivisionError
    else if fltb var zero then Raise ValueError
    else Ok {| _arms := <[i := (fdiv (fadd (fmul (fmul sd sd) reward)
                                             (fmul (fmul on on) mean)) total,
                                fsqrt var)]> (_arms s);
               _observation_noise := on;
               _last_arm_pulled := Some i |}.
Proof.
  intros Hlast Harm on total var. unfold update, truediv, math_sqrt.
  rewrite Hlast. simpl. rewrite Harm. simpl. fold on. fold total.
  destruct (feqb total zero); [done|]. simpl. fold var.
  destruct (fltb var zero); done.
Qed.

(** A call that returns wrote one slot of the list and nothing else. *)
Lemma update_inv s s' reward :
  update reward s = Ok s' ->
  exists i arm b, _last_arm_pulled s = Some i /\ _arms s !! i = Some arm /\
    s' = {| _arms := <[i := b]> (_arms s);
            _observation_noise := _observation_noise s;
            _last_arm_pulled := _last_arm_pulled s |}.
Proof.
  unfold update, mbind, result_bind.
  destruct (_last_arm_pulled s) as [i|] eqn:Hlast; [|done].
  destruct (_arms s !! i) as [arm|] eqn:Harm; [|done].
  destruct (truediv _ _) as [mu|]; [|done].
  destruct (truediv _ _) as [var|]; [|done].
  destruct (math_sqrt var) as [sd|]; [|done].
  intros [= <-]. by exists i, arm, (mu, sd).
Qed.
End UpdateFacts.

(** ** What [select] returns *)

Section SelectFacts.
Context {T : Type} `{Arith T} {G : Type} (gauss : T -> T -> G -> T * G).
Implicit Types (arms : list (belief T)) (g : G).

(** One value is drawn per arm. *)
Lemma length_draws arms g : length (draws gauss arms g) = length arms.
Proof.
  revert g. induction arms as [|arm rest IH]; intros g; simpl; [done|].
  destruct (gauss arm.1 arm.2 g) as [val g']. simpl. by rewrite IH.
Qed.

(** The scan returns the item it started from or one of the items scanned. *)
Lemma max_scan_index arms k i0 a0 v0 g :
  let r := max_scan gauss (enumerate_from k arms) (i0, a0) v0 g in
  r.1.1 = i0 \/ (k <= r.1.1 < k + length arms)%nat.
Proof.
  revert k i0 a0 v0 g. induction arms as [|arm rest IH]; intros k i0 a0 v0 g; simpl.
  - by left.
  - unfold key. simpl. destruct (gauss arm.1 arm.2 g) as [val g'].
    destruct (fltb v0 val).
    + right. destruct (IH (S k) k arm val g') as [-> | ?]; lia.
    + destruct (IH (S k) i0 a0 v0 g') as [? | ?]; [by left | right; lia].
Qed.

Lemma select_unfold (s : LTS T) g arm rest :
  _arms s = arm :: rest ->
  select gauss s g =
    let '(val, g1) := gauss arm.1 arm.2 g in
    let r := max_scan gauss (enumerate_from 1 rest) (0%nat, arm) val g1 in
    Ok (r.1.1,
        {| _arms := _arms s;
           _observation_noise := _observation_noise s;
           _last_arm_pulled := Some r.1.1 |},
        r.2).
Proof.
  intros Harms. unfold select, py_max, mbind, result_bind. rewrite Harms. simpl.
  unfold key. simpl. destruct (gauss arm.1 arm.2 g) as [val g1].
  by destruct (max_scan _ _ _ _ _) as [item g'].
Qed.

(** A call of [select] that returns changed [_last_arm_pulled] only. *)
Lemma select_inv (s s' : LTS T) g g' i :
  select gauss s g = Ok (i, s', g') ->
  (i < length (_arms s))%nat /\
  s' = {| _arms := _arms s;
          _observation_noise := _observation_noise s;
          _last_arm_pulled := Some i |}.
Proof.
  destruct (_arms s) as [|arm rest] eqn:Harms.
  - unfold select, py_max, mbind, result_bind. by rewrite Harms.
  - rewrite (select_unfold s g arm rest Harms).
    destruct (gauss arm.1 arm.2 g) as [val g1]. simpl.
    pose proof (max_scan_index rest 1 0%nat arm val g1) as Hi. simpl in Hi.
    intros [= <- <- <-]. rewrite Harms. split; [lia | done].
Qed.

Context `{!OrderLaws T}.

Lemma fltb_asym (x y : T) : fltb x y = true -> fltb y x = false.
Proof.
  intros Hxy. destruct (fltb y x) eqn:Hyx; [|done].
  by rewrite <- (fltb_irrefl x), (fltb_trans x y x).
Qed.

Lemma fltb_ne (x y : T) : fltb x y = true -> x <> y.
Proof. intros Hxy ->. by rewrite fltb_irrefl in Hxy. Qed.

(** The scan keeps [i0] when no value drawn is greater than [v0];
    otherwise it returns the first index whose value nothing exceeds. *)
Lemma max_scan_spec arms k i0 a0 v0 g :
  let r := max_scan gauss (enumerate_from k arms) (i0, a0) v0 g in
  let xs := draws gauss arms g in
  (r.1.1 = i0 /\ forall j x, xs !! j = Some x -> fltb v0 x = false)
  \/ (exists j xi, r.1.1 = (k + j)%nat /\ xs !! j = Some xi /\ fltb v0 xi = true /\
        (forall j' x, xs !! j' = Some x -> fltb xi x = false) /\
        (forall j' x, (j' < j)%nat -> xs !! j' = Some x -> x <> xi)).
Proof.
  revert k i0 a0 v0 g. induction arms as [|arm rest IH]; intros k i0 a0 v0 g; simpl.
  - left. split; [done|]. intros j x. by rewrite lookup_nil.
  - unfold key. simpl. destruct (gauss arm.1 arm.2 g) as [val g'].
    destruct (fltb v0 val) eqn:Hv.
    + right. destruct (IH (S k) k arm val g') as [[-> Hle] | (j & xi & -> & Hj & Hlt & Hle & Hne)].
      * exists 0%nat, val. split_and!; [lia | done | done | | intros; lia].
        intros [|j'] x; simpl; [intros [= <-]; apply fltb_irrefl | apply Hle].
      * exists (S j), xi. split_and!; [lia | done | by apply (fltb_trans v0 val xi) | |].
        -- intros [|j'] x; simpl; [intros [= <-]; by apply fltb_asym | apply Hle].
        -- intros [|j'] x Hj'; simpl; [intros [= <-]; by apply fltb_ne | apply Hne; lia].
    + destruct (IH (S k) i0 a0 v0 g') as [[-> Hle] | (j & xi & -> & Hj & Hlt & Hle & Hne)].
      * left. split; [done|]. intros [|j'] x; simpl; [by intros [= <-] | apply Hle].
      * right. exists (S j), xi. split_and!; [lia | done | done | |].
        -- intros [|j'] x; simpl; [intros [= <-] | apply Hle].
           destruct (fltb xi val) eqn:Hxv; [|done].
           by rewrite <- Hv, (fltb_trans v0 xi val).
        -- intros [|j'] x Hj'; simpl; [intros [= <-] | apply Hne; lia].
           intros ->. by rewrite Hlt in Hv.
Qed.

Lemma select_spec (s : LTS T) g :
  _arms s <> [] ->
  exists i g', select gauss s g =
      Ok (i, {| _arms := _arms s;
                _observation_noise := _observation_noise s;
                _last_arm_pulled := Some i |}, g') /\
    first_argmax (draws gauss (_arms s) g) i.
Proof.
  destruct (_arms s) as [|arm rest] eqn:Harms; [done|]. intros _.
  rewrite (select_unfold s g arm rest Harms). simpl.
  destruct (gauss arm.1 arm.2 g) as [val g1]. simpl.
  destruct (max_scan_spec rest 1 0%nat arm val g1)
    as [[Hi Hle] | (j & xi & Hi & Hj & Hlt & Hle & Hne)]; simpl in *;
    eexists _, _; (split; [rewrite Harms; reflexivity|]); rewrite Hi.
  - exists val. split_and!; [done | | intros; lia].
    intros [|j'] x; simpl; [intros [= <-]; apply fltb_irrefl | apply Hle].
  - exists xi. split_and!; [done | |].
    + intros [|j'] x; simpl; [intros [= <-]; by apply fltb_asym | apply Hle].
    + intros [|j'] x Hj'; simpl; [intros [= <-]; by apply fltb_ne | apply Hne; lia].
Qed.
End SelectFacts.

Lemma select_ok {T : Type} `{Arith T} {G : Type} (gauss : T -> T -> G -> T * G)
    (s : LTS T) (g : G) :
  _arms s <> [] -> exists i s' g', select gauss s g = Ok (i, s', g').
Proof.
  destruct (_arms s) as [|arm rest] eqn:Harms; [done|]. intros _.
  rewrite (select_unfold gauss s g arm rest Harms).
  destruct (gauss arm.1 arm.2 g) as [val g1]. simpl. eauto.
Qed.

(** Over the reals [first_argmax] is the usual first maximum. *)
Lemma first_argmax_exact (xs : list R) (i : nat) :
  first_argmax xs i <->
  exists xi, xs !! i = Some xi /\
    (forall j xj, xs !! j = Some xj -> (xj <= xi)%R) /\
    (forall j xj, (j < i)%nat -> xs !! j = Some xj -> (xj < xi)%R).
Proof.
  split; intros (xi & Hi & Hle & Hlt); exists xi; split_and!; try done.
  - intros j xj Hj. by apply Rltb_ge, (Hle j).
  - intros j xj Hji Hj. pose proof (Hle j xj Hj) as ?%Rltb_ge.
    pose proof (Hlt j xj Hji Hj). lra.
  - intros j xj Hj. apply Rltb_ge. eauto.
  - intros j xj Hji Hj. pose proof (Hlt j xj Hji Hj). lra.
Qed.

(** ** The claims that hold in any arithmetic *)

(** C1. [update(reward)] replaces the belief [(mean, sd)] of the arm pulled
    last with the conjugate posterior: the new mean is
    [(sd^2 * reward + noise^2 * mean) / (sd^2 + noise^2)] and the new standard
    deviation is [sqrt((sd^2 * noise^2) / (sd^2 + noise^2))].  The call returns
    whenever the arm exists, [sd^2 + noise^2] is not zero and the quotient
    under the root is not negative; this is so in either arithmetic. *)
Theorem update_conjugate_posterior {T : Type} `{Arith T}
    (s : LTS T) (reward : T) (i : nat) (mean sd : T) :
  let arm_variance := fmul sd sd in
  let ob_variance := fmul (_observation_noise s) (_observation_noise s) in
  let new_mean := fdiv (fadd (fmul arm_variance reward) (fmul ob_variance mean))
                       (fadd arm_variance ob_variance) in
  let new_var := fdiv (fmul arm_variance ob_variance) (fadd arm_variance ob_variance) in
  _last_arm_pulled s = Some i -> _arms s !! i = Some (mean, sd) ->
  feqb (fadd arm_variance ob_variance) zero = false ->
  fltb new_var zero = false ->
  exists s', update reward s = Ok s' /\
    _arms s' = <[i := (new_mean, fsqrt new_var)]> (_arms s) /\
    _arms s' !! i = Some (new_mean, fsqrt new_var).
Proof.
  intros av ov new_mean new_var Hlast Harm Hzero Hneg.
  rewrite (update_unfold s reward i mean sd Hlast Harm). simpl.
  fold av ov. rewrite Hzero. fold new_var. rewrite Hneg.
  eexists. split_and!; [done | done |]. simpl.
  apply list_lookup_insert_eq. by eapply lookup_lt_Some.
Qed.

Lemma update_conjugate_posterior_witness :
  exists s', update 5.0%float (scenario 1) = Ok s' /\
    _arms s' = <[1%nat := (4.9983351831298553, 0.099944490697915445)%float]>
                 (_arms (scenario 1)) /\
    _arms s' !! 1%nat = Some (4.9983351831298553, 0.099944490697915445)%float.
Proof.
  exact (update_conjugate_posterior (scenario 1) 5.0%float 1 3.5%float 3.0%float
           eq_refl eq_refl eq_refl eq_refl).
Defined.

(** C6. A call of [update] that returns wrote the belief of the arm pulled
    last and nothing else: the other beliefs, the number of arms, the
    observation noise and the arm pulled last are as before. *)
Theorem update_frame {T : Type} `{Arith T} (s s' : LTS T) (reward : T) :
  update reward s = Ok s' ->
  exists i, _last_arm_pulled s = Some i /\ (i < length (_arms s))%nat /\
    length (_arms s') = length (_arms s) /\
    _observation_noise s' = _observation_noise s /\
    _last_arm_pulled s' = _last_arm_pulled s /\
    forall j, j <> i -> _arms s' !! j = _arms s !! j.
Proof.
  intros (i & arm & b & Hlast & Harm & ->)%update_inv. exists i. simpl.
  split_and!; try done.
  - by eapply lookup_lt_Some.
  - apply length_insert.
  - intros j Hj. by apply list_lookup_insert_ne.
Qed.

Lemma update_frame_witness :
  exists s', update 5.0%float (scenario 1) = Ok s' /\
  exists i, _last_arm_pulled (scenario 1) = Some i /\
    (i < length (_arms (scenario 1)))%nat /\
    length (_arms s') = length (_arms (scenario 1)) /\
    _observation_noise s' = _observation_noise (scenario 1) /\
    _last_arm_pulled s' = _last_arm_pulled (scenario 1) /\
    forall j, j <> i -> _arms s' !! j = _arms (scenario 1) !! j.
Proof.
  eexists. split; [vm_compute; reflexivity|].
  apply (update_frame (scenario 1) _ 5.0%float). vm_compute. reflexivity.
Defined.

(** C7, as amended. [__init__] checks nothing and never raises: for every
    [N] and every float arguments it returns an object with [max(N, 0)] arms,
    each with the belief [(init_mu, init_sd)], the observation noise given and
    no arm pulled yet. *)
Theorem init_never_raises {T : Type} `{Arith T}
    (N : Z) (init_mu init_sd observation_noise : T) :
  exists s, __init__ N init_mu init_sd observation_noise = Ok s /\
    Z.of_nat (length (_arms s)) = Z.max N 0 /\
    (forall i, (i < length (_arms s))%nat -> _arms s !! i = Some (init_mu, init_sd)) /\
    _observation_noise s = observation_noise /\
    _last_arm_pulled s = None.
Proof.
  eexists. split; [reflexivity|]. simpl. rewrite length_replicate.
  split_and!; [lia | | done | done].
  intros i Hi. by apply lookup_replicate_2.
Qed.

(** C7 fails on the code: no arms, a negative standard deviation and a zero
    observation noise are all accepted. *)
Lemma init_accepts_invalid_arguments :
  __init__ 0 3.5%float 3.0%float 0.1%float
    = Ok {| _arms := []; _observation_noise := 0.1%float; _last_arm_pulled := None |} /\
  __init__ 3 3.5%float (-3.0)%float 0.1%float
    = Ok {| _arms := replicate 3 (3.5, -3.0)%float;
            _observation_noise := 0.1%float; _last_arm_pulled := None |} /\
  __init__ 3 3.5%float 3.0%float 0%float
    = Ok {| _arms := replicate 3 (3.5, 3.0)%float;
            _observation_noise := 0%float; _last_arm_pulled := None |}.
Proof. split_and!; reflexivity. Qed.

(** C8. On an object with at least one arm, [select] returns an index of the
    list of arms and records it as the arm pulled last; the beliefs and the
    observation noise are as before. *)
Theorem select_returns_valid_index {T : Type} `{Arith T} {G : Type}
    (gauss : T -> T -> G -> T * G) (s : LTS T) (g : G) :
  (1 <= length (_arms s))%nat ->
  exists i s' g', select gauss s g = Ok (i, s', g') /\
    (i < length (_arms s))%nat /\
    _last_arm_pulled s' = Some i /\
    _arms s' = _arms s /\
    _observation_noise s' = _observation_noise s.
Proof.
  intros Hlen.
  destruct (select_ok gauss s g) as (i & s' & g' & Hsel).
  { intros Hnil. rewrite Hnil in Hlen. simpl in Hlen. lia. }
  exists i, s', g'. split; [done|].
  apply select_inv in Hsel as [Hi ->]. done.
Qed.

Lemma select_returns_valid_index_witness :
  exists i s' g', select deviates (scenario 0) [0.5; 1.0; 1.0]%float = Ok (i, s', g') /\
    (i < length (_arms (scenario 0)))%nat /\
    _last_arm_pulled s' = Some i /\
    _arms s' = _arms (scenario 0) /\
    _observation_noise s' = _observation_noise (scenario 0).
Proof.
  apply (select_returns_valid_index deviates (scenario 0)). simpl. lia.
Defined.

(** C2. On an object with at least one arm, [select] returns the first index
    at which the values drawn (one per arm, in order) are largest: no value
    drawn is greater than the one of the arm returned, and that value was not
    drawn for an arm of lower index.  When all the values drawn are the same,
    the index is 0. *)
Theorem select_first_maximum {T : Type} `{OrderLaws T} {G : Type}
    (gauss : T -> T -> G -> T * G) (s : LTS T) (g : G) :
  _arms s <> [] ->
  exists i s' g', select gauss s g = Ok (i, s', g') /\
    first_argmax (draws gauss (_arms s) g) i /\
    ((exists v, Forall (fun x => x = v) (draws gauss (_arms s) g)) -> i = 0%nat).
Proof.
  intros Hne. destruct (select_spec gauss s g Hne) as (i & g' & Hsel & Hmax).
  eexists i, _, g'. split_and!; [done | done |].
  intros [v Hall]. destruct Hmax as (xi & Hi & _ & Hfirst).
  destruct i as [|i]; [done|]. exfalso.
  rewrite Forall_lookup in Hall.
  destruct (draws gauss (_arms s) g !! 0%nat) as [x0|] eqn:Hx0.
  - apply (Hfirst 0%nat x0); [lia | done |].
    by rewrite (Hall _ _ Hx0), (Hall _ _ Hi).
  - apply lookup_ge_None in Hx0. apply lookup_lt_Some in Hi. lia.
Qed.

Lemma select_first_maximum_witness :
  exists i s' g', select deviates (scenario 0) [0.5; 1.0; 1.0]%float = Ok (i, s', g') /\
    first_argmax (draws deviates (_arms (scenario 0)) [0.5; 1.0; 1.0]%float) i /\
    ((exists v, Forall (fun x => x = v)
                  (draws deviates (_arms (scenario 0)) [0.5; 1.0; 1.0]%float)) ->
     i = 0%nat).
Proof.
  apply (select_first_maximum deviates (scenario 0)). simpl. discriminate.
Defined.

(** The draws 5, 6.5, 6.5 tie at the arms 1 and 2: the arm 1 is returned. *)
Example select_tie_lowest_index :
  draws deviates (_arms (scenario 0)) [0.5; 1.0; 1.0]%float = [5; 6.5; 6.5]%float /\
  select deviates (scenario 0) [0.5; 1.0; 1.0]%float = Ok (1%nat, scenario 1, []).
Proof. split; vm_compute; reflexivity. Qed.

(** P5: a sampler that returns the same value for every arm. *)
Example select_identical_draws :
  select (constant_sampler 2.0%float) (scenario 2) tt = Ok (0%nat, scenario 0, tt).
Proof. vm_compute. reflexivity. Qed.

(** ** The conjugate update over the reals

    Used only to cross-check the values of the scenario of the
    specification, below. *)

Section Exact.
Local Open Scope R_scope.
Implicit Types (s : LTS R) (i : nat) (m sd reward : R).

Lemma selected_exact s i m sd :
  selected s i m sd <->
  _last_arm_pulled s = Some i /\ _arms s !! i = Some (m, sd) /\
  0 < sd /\ 0 < _observation_noise s.
Proof. unfold selected, flt. simpl. by rewrite !Rltb_lt. Qed.

Lemma within_exact (eps x y : R) : within eps x y <-> Rabs (x - y) < eps.
Proof.
  unfold within, flt. simpl. rewrite !Rltb_lt. split.
  - intros [? ?]. apply Rabs_def1; lra.
  - intros [? ?]%Rabs_def2. lra.
Qed.

Lemma posterior_mean_eq (v o m reward : R) :
  0 < v -> 0 < o ->
  (v * reward + o * m) / (v + o) = m + v / (v + o) * (reward - m).
Proof. intros. field. lra. Qed.

Lemma posterior_var_bounds (v o : R) :
  0 < v -> 0 < o -> 0 < v * o / (v + o) < v.
Proof.
  intros Hv Ho. split.
  - apply Rdiv_lt_0_compat; [apply Rmult_lt_0_compat|]; lra.
  - apply (Rmult_lt_reg_r (v + o)); [lra|]. field_simplify; [nra | lra].
Qed.

(** On a positive belief and a positive noise the call returns. *)
Lemma update_exact s i m sd reward :
  selected s i m sd ->
  let on := _observation_noise s in
  update reward s =
    Ok {| _arms := <[i := ((sd * sd * reward + on * on * m) / (sd * sd + on * on),
                           R_sqrt.sqrt (sd * sd * (on * on) / (sd * sd + on * on)))]>
                     (_arms s);
          _observation_noise := on;
          _last_arm_pulled := Some i |}.
Proof.
  intros (Hlast & Harm & Hsd & Hon)%selected_exact on.
  rewrite (update_unfold s reward i m sd Hlast Harm). simpl. fold on.
  assert (0 < sd * sd) by nra. assert (0 < on * on) by (subst on; nra).
  pose proof (posterior_var_bounds (sd * sd) (on * on)).
  rewrite (proj2 (Reqb_ne _ _)) by lra.
  rewrite (proj2 (Rltb_ge _ _)) by lra. done.
Qed.

(** The belief after one call, with what the other claims need of it. *)
Lemma update_exact_belief s i m sd reward :
  selected s i m sd ->
  let v := sd * sd in
  let o := _observation_noise s * _observation_noise s in
  exists s' m' sd', update reward s = Ok s' /\
    _arms s' !! i = Some (m', sd') /\
    _last_arm_pulled s' = Some i /\
    _observation_noise s' = _observation_noise s /\
    m' = m + v / (v + o) * (reward - m) /\
    0 < sd' /\ sd' * sd' = v * o / (v + o).
Proof.
  intros Hsel v o. pose proof (update_exact s i m sd reward Hsel) as Hup.
  apply selected_exact in Hsel as (Hlast & Harm & Hsd & Hon).
  assert (0 < v) by (subst v; nra). assert (0 < o) by (subst o; nra).
  pose proof (posterior_var_bounds v o).
  eexists _, ((v * reward + o * m) / (v + o)), (R_sqrt.sqrt (v * o / (v + o))).
  split; [exact Hup|]. simpl. split_and!; try done.
  - apply list_lookup_insert_eq. by eapply lookup_lt_Some.
  - by apply posterior_mean_eq.
  - apply sqrt_lt_R0. lra.
  - apply sqrt_sqrt. lra.
Qed.

End Exact.

(** The scenario of the specification satisfies the hypotheses. *)
Lemma scenario_exact_selected : selected (scenario_exact 1) 1 3.5%R 3%R.
Proof. apply selected_exact. simpl. split_and!; (done || lra). Qed.

(** ** What fails of the conjugate update in binary64 *)

Section Binary64.
Local Open Scope float_scope.

(** With the belief (3.5, 3.0), the noise 1e-9 and the reward 5.0:
    [arm_variance = 9.0], [ob_variance = 1e-18]; [9.0 * 5.0 + 1e-18 * 3.5] is
    rounded to 45.0 and [9.0 + 1e-18] to 9.0, so [mu = 45.0 / 9.0 = 5.0]. *)
Example update_small_noise_binary64 :
  (9.0 * 5.0 + 1e-9 * 1e-9 * 3.5 = 45.0 /\ 9.0 + 1e-9 * 1e-9 = 9.0) /\
  update 5.0 (one_arm 3.5 3.0 1e-9) = Ok (one_arm 5.0 1.0000000000000001e-09 1e-9).
Proof. split_and!; vm_compute; reflexivity. Qed.


(** With the belief (3.5, 1.0), the noise 1e9 and the reward 5.0:
    [arm_variance = 1.0], [ob_variance = 1e18]; [1.0 + 1e18] is rounded to
    1e18 (1.0 is below half the spacing of the floats near 1e18, which is 128),
    so [var = 1e18 / 1e18 = 1.0] and [sd = 1.0]; the mean stays 3.5 as well. *)
Example update_large_noise_binary64 :
  (1.0 + 1e9 * 1e9 = 1e9 * 1e9) /\
  update 5.0 (one_arm 3.5 1.0 1e9) = Ok (one_arm 3.5 1.0 1e9).
Proof. split; vm_compute; reflexivity. Qed.


(** With [init_sd = 1e-200] and the noise 1.0: [arm_variance = 1e-400]
    underflows to 0.0, so [var = 0.0 * 1.0 / (0.0 + 1.0) = 0.0] and
    [sd = 0.0]. *)
Example update_underflow_binary64 :
  (1e-200 * 1e-200 = 0) /\
  __init__ 1 0 1e-200 1.0
    = Ok {| _arms := [(0, 1e-200)]; _observation_noise := 1.0; _last_arm_pulled := None |} /\
  select (constant_sampler 0)
    {| _arms := [(0, 1e-200)]; _observation_noise := 1.0; _last_arm_pulled := None |} tt
    = Ok (0%nat, one_arm 0 1e-200 1.0, tt) /\
  update 0 (one_arm 0 1e-200 1.0) = Ok (one_arm 0 0 1.0).
Proof. split_and!; vm_compute; reflexivity. Qed.

(** C5 fails on the code: [init_sd = 1e-200] and [observation_noise = 1.0]
    are positive, and after one [select] and one [update] the standard
    deviation of the arm is 0. *)
Lemma sd_reaches_zero_binary64 : ~ @sd_always_positive float binary64.
Proof.
  intros Hclaim.
  destruct (Hclaim unit (constant_sampler 0) 1%Z 0 1e-200 1.0)
    as (s0 & Hinit & Hinv); [vm_compute; reflexivity | vm_compute; reflexivity |].
  injection Hinit as <-.
  assert (sd_positive (one_arm 0 0 1.0)) as Hpos.
  { apply (Hinv tt _ tt).
    eapply rtc_l; [eapply step_select; vm_compute; reflexivity|].
    eapply rtc_l; [eapply (step_update _ _ _ 0); vm_compute; reflexivity|].
    apply rtc_refl. }
  apply Forall_inv in Hpos. vm_compute in Hpos. discriminate.
Qed.


End Binary64.

(** ** What holds of the conjugate update in binary64 *)

(** *** The sign of a square root *)

Lemma binary_round_aux_sign (prec emax mx ex : Z) (lx : location) :
  SFltb (binary_round_aux prec emax false mx ex lx) (S754_zero false) = false.
Proof.
  unfold binary_round_aux.
  destruct (shr_fexp prec emax mx ex lx) as [mrs1 e1].
  destruct (shr_fexp prec emax _ e1 _) as [mrs2 e2].
  destruct (shr_m mrs2); [done | | done].
  destruct (Z.leb e2 (emax - prec)); done.
Qed.

Lemma SFsqrt_sign (prec emax : Z) (x : spec_float) :
  SFltb (SFsqrt prec emax x) (S754_zero false) = false.
Proof.
  destruct x as [[]|[]| |[] mx ex]; try done.
  unfold SFsqrt. destruct (SFsqrt_core_binary prec emax _ ex) as [[mz ez] lz].
  apply binary_round_aux_sign.
Qed.

(** [math.sqrt] never returns a float below zero: the square root of a
    float is zero, positive, infinite or NaN. *)
Lemma sqrt_not_negative (x : float) : PrimFloat.ltb (PrimFloat.sqrt x) 0 = false.
Proof. rewrite ltb_spec, sqrt_spec. apply SFsqrt_sign. Qed.

(** *** Membership in the grids *)




Section Binary64Checks.
Local Open Scope float_scope.
Implicit Types (s : LTS float) (i : nat) (m sd on reward : float).

(** *** The checks are those of [update] *)





(** *** The checks hold on the grids, by evaluation *)




(** *** The standard deviation *)

(** The standard deviation can also grow: with 1.0737700000004833 and the
    noise 1e9, [var] is rounded up and its square root is the next float. *)
Example update_sd_grows_binary64 :
  update 5.0 (one_arm 3.5 1.0737700000004833 1e9)
    = Ok (one_arm 3.5 1.0737700000004835 1e9) /\
  (1.0737700000004833 <? 1.0737700000004835) = true.
Proof. split; vm_compute; reflexivity. Qed.


(** *** The mean *)

(** The new mean can also leave the interval: when the mean and the reward
    are both 3.7, the new mean is the next float above 3.7. *)
Example update_mean_leaves_interval_binary64 :
  update 3.7 (one_arm 3.7 3.0 0.1)
    = Ok (one_arm 3.7000000000000006 0.099944490697915445 0.1) /\
  (3.7 <? 3.7000000000000006) = true.
Proof. split; vm_compute; reflexivity. Qed.


(** *** The invariant of the standard deviations *)

(** With [init_sd = observation_noise = 1e200] both variances overflow to
    infinity, [var] is infinity / infinity and the belief becomes
    (NaN, NaN): a standard deviation that is not positive either. *)
Example update_overflow_binary64 :
  (1e200 * 1e200 = infinity) /\
  update 5.0 (one_arm 3.5 1e200 1e200) = Ok (one_arm nan nan 1e200) /\
  (0 <? nan) = false.
Proof. split_and!; vm_compute; reflexivity. Qed.
End Binary64Checks.

Section Binary64Runs.
Context {G : Type} (gauss : float -> float -> G -> float * G).

(** A call that returns leaves no standard deviation below zero. *)
Lemma step_sd_not_negative (x y : LTS float * G) :
  step gauss x y -> sd_not_negative x.1 -> sd_not_negative y.1.
Proof.
  intros [s g i s' g' Hsel | s g reward s' Hup]; simpl.
  - by apply select_inv in Hsel as [_ ->].
  - destruct (update_inv _ _ _ Hup) as (i & [m sd] & b & Hlast & Harm & _).
    rewrite (update_unfold s reward i m sd Hlast Harm) in Hup. cbv zeta in Hup.
    destruct (feqb _ _); [done|]. destruct (fltb _ _); [done|].
    injection Hup as <-. simpl. intros Hinv.
    apply Forall_insert; [done|]. simpl. apply sqrt_not_negative.
Qed.

Lemma run_sd_not_negative (x y : LTS float * G) :
  rtc (step gauss) x y -> sd_not_negative x.1 -> sd_not_negative y.1.
Proof. induction 1; eauto using step_sd_not_negative. Qed.

(** C5, as amended. In binary64, when [init_sd > 0], no standard deviation
    is ever below zero: not after construction, and not after any sequence of
    calls of [select] and [update] that return.  (It can be zero, and it can
    be NaN.) *)
Theorem sd_never_negative_binary64 (N : Z) (init_mu init_sd observation_noise : float) :
  flt zero init_sd ->
  exists s0, __init__ N init_mu init_sd observation_noise = Ok s0 /\
    forall g s g', rtc (step gauss) (s0, g) (s, g') -> sd_not_negative s.
Proof.
  intros Hsd. eexists. split; [reflexivity|]. intros g s g' Hrun.
  apply (run_sd_not_negative _ _ Hrun). simpl.
  apply Forall_replicate. simpl. exact (fltb_asym (T:=float) _ _ Hsd).
Qed.
End Binary64Runs.

Section Binary64Convergence.
Local Open Scope float_scope.

End Binary64Convergence.



Lemma sd_never_negative_binary64_witness :
  exists s0, __init__ 3 3.5%float 3.0%float 0.1%float = Ok s0 /\
    forall g s g', rtc (step (@deviates float binary64)) (s0, g) (s, g') ->
      sd_not_negative s.
Proof.
  apply (sd_never_negative_binary64 deviates 3%Z 3.5%float 3.0%float 0.1%float).
  vm_compute. reflexivity.
Defined.


(** ** The scenario of the specification *)

(** The call [update(5.0)] of the scenario in exact arithmetic: the new mean
    is 45.035 / 9.01 and the new variance 0.09 / 9.01. *)
Lemma scenario_exact_update :
  exists s' m' sd', update 5%R (scenario_exact 1) = Ok s' /\
    _arms s' !! 1%nat = Some (m', sd') /\
    (m' = 4503.5 / 901 /\ 0 < sd' /\ sd' * sd' = 9 / 901)%R.
Proof.
  destruct (update_exact_belief (scenario_exact 1) 1 3.5%R 3%R 5%R scenario_exact_selected)
    as (s' & m' & sd' & Hup & Harm & _ & _ & Hm & Hsd & Hv).
  change (_observation_noise (scenario_exact 1)) with 0.1%R in Hm, Hv.
  exists s', m', sd'. split_and!; try done.
  - rewrite Hm. lra.
  - rewrite Hv. lra.
Qed.

(** C10, as amended. With the noise 0.1, one call [update(5.0)] on the belief
    (3.5, 3.0) leaves a mean within 0.00005 of 4.9983 and a standard deviation
    within 0.00005 of 0.0999, in binary64 and in exact arithmetic. *)
Theorem scenario_update_values :
  update_yields (scenario 1) 5.0%float 0.00005%float 4.9983%float 0.0999%float /\
  update_yields (scenario_exact 1) 5%R 0.00005%R 4.9983%R 0.0999%R.
Proof.
  split.
  - exists 1%nat,
      {| _arms := [(3.5, 3.0); (4.9983351831298553, 0.099944490697915445); (3.5, 3.0)]%float;
         _observation_noise := 0.1%float;
         _last_arm_pulled := Some 1%nat |},
      4.9983351831298553%float, 0.099944490697915445%float.
    unfold within, flt. split_and!; vm_compute; reflexivity.
  - destruct scenario_exact_update as (s' & m' & sd' & Hup & Harm & Hm & Hsd & Hv).
    exists 1%nat, s', m', sd'. rewrite !within_exact.
    split_and!; [done | done | done | |]; apply Rabs_def1; nra.
Qed.

(** C10 fails on the code: the new mean is 4.99833..., more than 0.0002 away
    from 4.9986. *)
Lemma scenario_update_mean_off :
  ~ update_yields (scenario 1) 5.0%float 0.0002%float 4.9986%float 0.0999%float /\
  ~ update_yields (scenario_exact 1) 5%R 0.0002%R 4.9986%R 0.0999%R.
Proof.
  split.
  - intros (i & s' & m' & sd' & Hlast & Hup & Harm & [_ Hm] & _).
    injection Hlast as <-. vm_compute in Hup. injection Hup as <-.
    injection Harm as <- <-. vm_compute in Hm. discriminate.
  - intros (i & s' & m' & sd' & Hlast & Hup & Harm & Hm%within_exact & _).
    injection Hlast as <-.
    destruct scenario_exact_update as (s1 & m1 & sd1 & Hup1 & Harm1 & Hm1 & _).
    rewrite Hup in Hup1. injection Hup1 as <-.
    pose proof (eq_trans (eq_sym Harm) Harm1) as [= -> ->].
    apply Rabs_def2 in Hm. lra.
Qed.

(** ** The edges of [update] *)

(** Before any [select] the list is indexed by [None]. *)
Example update_before_select {T : Type} `{Arith T} (s : LTS T) (reward : T) :
  _last_arm_pulled s = None -> update reward s = Raise TypeError.
Proof. intros Hlast. unfold update. by rewrite Hlast. Qed.

(** In binary64 two positive standard deviations can have squares that
    underflow to 0: the division raises. *)
Example update_underflow_raises :
  update 5.0%float (one_arm 3.5 1e-200 1e-200)%float = Raise ZeroDivisionError.
Proof. vm_compute. reflexivity. Qed.

(** At the values of the scenario, in binary64: the mean moves strictly
    between 3.5 and 5.0 and the standard deviation strictly below 3.0. *)
Example scenario_update_binary64 :
  update 5.0%float (scenario 1) =
    Ok {| _arms := [(3.5, 3.0); (4.9983351831298553, 0.099944490697915445); (3.5, 3.0)]%float;
          _observation_noise := 0.1%float;
          _last_arm_pulled := Some 1%nat |} /\
  flt 3.5%float 4.9983351831298553%float /\
  flt 4.9983351831298553%float 5.0%float /\
  flt 0.099944490697915445%float 3.0%float.
Proof. unfold flt. split_and!; vm_compute; reflexivity. Qed.

(** * Further properties of the class *)

(** ** Runs of calls, in any arithmetic *)

Section RunFacts.
Context {T : Type} `{Arith T} {G : Type} (gauss : T -> T -> G -> T * G).

(** What a run from an object on which nothing was selected keeps: the number
    of arms, the observation noise, and an arm pulled last that is in range
    once it is set. *)
Lemma run_invariant (s0 s : LTS T) (g g' : G) :
  _last_arm_pulled s0 = None ->
  rtc (step gauss) (s0, g) (s, g') ->
  length (_arms s) = length (_arms s0) /\
  _observation_noise s = _observation_noise s0 /\
  match _last_arm_pulled s with
  | None => s = s0
  | Some i => (i < length (_arms s))%nat
  end.
Proof.
  intros Hnone Hrun.
  enough (forall y, rtc (step gauss) (s0, g) y ->
            length (_arms y.1) = length (_arms s0) /\
            _observation_noise y.1 = _observation_noise s0 /\
            match _last_arm_pulled y.1 with
            | None => y.1 = s0
            | Some i => (i < length (_arms y.1))%nat
            end) as Hall by apply (Hall _ Hrun).
  clear s g' Hrun. apply rtc_ind_r.
  { simpl. by rewrite Hnone. }
  intros y z _ Hstep (Hlen & Hon & Hlast).
  destruct Hstep as [s1 g1 i s2 g2 Hsel | s1 g1 reward s2 Hup]; simpl in *.
  - apply select_inv in Hsel as [Hi ->]. simpl. done.
  - destruct (update_inv s1 s2 reward Hup) as (i & arm & b & Hi & Harm & ->). simpl.
    rewrite length_insert, Hi in *. done.
Qed.
End RunFacts.

(** The scenario as a run: construction, one [select], one [update(5.0)]. *)
Lemma scenario_run :
  rtc (step (@deviates float binary64))
    ({| _arms := replicate 3 (3.5, 3.0)%float;
        _observation_noise := 0.1%float;
        _last_arm_pulled := None |}, [0.5; 1.0; 1.0]%float)
    ({| _arms := [(3.5, 3.0); (4.9983351831298553, 0.099944490697915445); (3.5, 3.0)]%float;
        _observation_noise := 0.1%float;
        _last_arm_pulled := Some 1%nat |}, []).
Proof.
  eapply rtc_l; [eapply step_select; vm_compute; reflexivity|].
  eapply rtc_l; [eapply (step_update _ _ _ 5.0%float); vm_compute; reflexivity|].
  apply rtc_refl.
Qed.

(** X1. From construction on, whatever calls of [select] and [update] return,
    the object keeps [max(N, 0)] arms and the observation noise it was built
    with. *)
Theorem run_keeps_arms_and_noise {T : Type} `{Arith T} {G : Type}
    (gauss : T -> T -> G -> T * G) (N : Z) (init_mu init_sd observation_noise : T)
    (s0 s : LTS T) (g g' : G) :
  __init__ N init_mu init_sd observation_noise = Ok s0 ->
  rtc (step gauss) (s0, g) (s, g') ->
  Z.of_nat (length (_arms s)) = Z.max N 0 /\
  _observation_noise s = observation_noise.
Proof.
  intros [= <-] Hrun.
  apply run_invariant in Hrun as (Hlen & Hon & _); [|done].
  simpl in *. rewrite length_replicate in Hlen. split; [lia | done].
Qed.

Lemma run_keeps_arms_and_noise_witness :
  Z.of_nat (length [(3.5, 3.0); (4.9983351831298553, 0.099944490697915445);
                    (3.5, 3.0)]%float) = Z.max 3 0 /\
  0.1%float = 0.1%float.
Proof.
  exact (run_keeps_arms_and_noise deviates 3 3.5%float 3.0%float 0.1%float _ _ _ _
           eq_refl scenario_run).
Defined.

(** X2. In a state reached from construction, [update] never raises
    [IndexError]; it raises [TypeError] exactly when no arm is recorded as
    pulled, and then the object is still as constructed: no [select] has
    returned yet. *)
Theorem update_errors_in_run {T : Type} `{Arith T} {G : Type}
    (gauss : T -> T -> G -> T * G) (N : Z) (init_mu init_sd observation_noise : T)
    (s0 s : LTS T) (g g' : G) :
  __init__ N init_mu init_sd observation_noise = Ok s0 ->
  rtc (step gauss) (s0, g) (s, g') ->
  (forall reward, update reward s <> Raise IndexError) /\
  (forall reward, update reward s = Raise TypeError <-> _last_arm_pulled s = None) /\
  (_last_arm_pulled s = None -> s = s0).
Proof.
  intros [= <-] Hrun.
  apply run_invariant in Hrun as (_ & _ & Hlast); [|done].
  assert (forall reward i, _last_arm_pulled s = Some i ->
            (i < length (_arms s))%nat ->
            update reward s <> Raise IndexError /\ update reward s <> Raise TypeError)
    as Hsome.
  { intros reward i Hi Hlt.
    destruct (lookup_lt_is_Some_2 _ _ Hlt) as [[m sd] Harm].
    rewrite (update_unfold s reward i m sd Hi Harm). cbv zeta.
    destruct (feqb _ _); [done|]. destruct (fltb _ _); done. }
  destruct (_last_arm_pulled s) as [i|] eqn:Hi.
  - split_and!; [| |done].
    + intros reward. by destruct (Hsome reward i eq_refl Hlast).
    + intros reward. split; [|done]. intros Hup.
      by destruct (Hsome reward i eq_refl Hlast).
  - split_and!; [| |done].
    + intros reward. by rewrite update_before_select.
    + intros reward. by rewrite update_before_select.
Qed.

Lemma update_errors_in_run_witness :
  (forall reward, update reward (scenario 1) <> Raise IndexError) /\
  (forall reward, update reward (scenario 1) = Raise TypeError <->
                  _last_arm_pulled (scenario 1) = None) /\
  (_last_arm_pulled (scenario 1) = None ->
   scenario 1 = {| _arms := replicate 3 (3.5, 3.0)%float;
                   _observation_noise := 0.1%float;
                   _last_arm_pulled := None |}).
Proof.
  apply (update_errors_in_run deviates 3 3.5%float 3.0%float 0.1%float _ (scenario 1)
           [0.5; 1.0; 1.0]%float [] eq_refl).
  eapply rtc_l; [eapply step_select; vm_compute; reflexivity|]. apply rtc_refl.
Defined.

(** X3. On a constructed object [select] raises [ValueError] exactly when
    [N <= 0] (the [max] of an empty sequence) and returns exactly when
    [N >= 1]. *)
Theorem select_after_init {T : Type} `{Arith T} {G : Type}
    (gauss : T -> T -> G -> T * G) (N : Z) (init_mu init_sd observation_noise : T)
    (s0 : LTS T) (g : G) :
  __init__ N init_mu init_sd observation_noise = Ok s0 ->
  (select gauss s0 g = Raise ValueError <-> (N <= 0)%Z) /\
  ((exists r, select gauss s0 g = Ok r) <-> (1 <= N)%Z).
Proof.
  intros [= <-]. destruct (Z_le_gt_dec N 0) as [Hle | Hgt].
  - assert (Z.to_nat N = 0%nat) as HN by lia.
    assert (select gauss
              {| _arms := replicate (Z.to_nat N) (init_mu, init_sd);
                 _observation_noise := observation_noise;
                 _last_arm_pulled := None |} g = Raise ValueError) as Hsel.
    { unfold select, py_max, mbind, result_bind. simpl. by rewrite HN. }
    rewrite Hsel. split; split; try done; try lia. by intros [r ?].
  - destruct (select_ok gauss
                {| _arms := replicate (Z.to_nat N) (init_mu, init_sd);
                   _observation_noise := observation_noise;
                   _last_arm_pulled := None |} g) as (i & s' & g' & Hsel).
    { simpl. destruct (Z.to_nat N) eqn:HN; [lia | done]. }
    rewrite Hsel. split; split; try done; try lia. intros _. by eexists.
Qed.

Lemma select_after_init_witness :
  (select (@deviates float binary64)
     {| _arms := []; _observation_noise := 0.1%float; _last_arm_pulled := None |} []
   = Raise ValueError <-> (0 <= 0)%Z) /\
  ((exists r, select (@deviates float binary64)
                {| _arms := []; _observation_noise := 0.1%float;
                   _last_arm_pulled := None |} [] = Ok r) <-> (1 <= 0)%Z).
Proof.
  exact (select_after_init deviates 0 3.5%float 3.0%float 0.1%float _ [] eq_refl).
Defined.

(** ** The reward and the standard deviations *)

Section SpreadFacts.
Context {T : Type} `{Arith T}.
Implicit Types (s t : LTS T).

Lemma deviations_lookup s i m sd :
  _arms s !! i = Some (m, sd) -> deviations s !! i = Some sd.
Proof. intros Harm. unfold deviations, belief in *. by rewrite list_lookup_fmap, Harm. Qed.

Lemma deviations_insert s i (b : belief T) :
  (fun arm : belief T => arm.2) <$> <[i := b]> (_arms s) = <[i := b.2]> (deviations s).
Proof. unfold deviations. by rewrite list_fmap_insert. Qed.

(** Whether a call returns, and the standard deviations it leaves, do not
    depend on the reward or on the means. *)
Lemma update_same_spread s t r1 r2 s1 :
  same_spread s t -> update r1 s = Ok s1 ->
  exists t1, update r2 t = Ok t1 /\ same_spread s1 t1.
Proof.
  intros (Hlast & Hon & Hdev) Hup.
  destruct (update_inv s s1 r1 Hup) as (i & [m sd] & b & Hi & Harm & _).
  assert (exists m', _arms t !! i = Some (m', sd)) as [m' Harm'].
  { pose proof (deviations_lookup s i m sd Harm) as Hsd. rewrite Hdev in Hsd.
    unfold deviations in Hsd.
    apply list_lookup_fmap_Some in Hsd as ([m' sd'] & Heq & Harm').
    simpl in Heq. subst sd'. by exists m'. }
  rewrite (update_unfold s r1 i m sd Hi Harm) in Hup.
  rewrite (update_unfold t r2 i m' sd (eq_trans (eq_sym Hlast) Hi) Harm').
  cbv zeta in *. rewrite <- Hon.
  destruct (feqb _ _); [done|]. destruct (fltb _ _); [done|].
  injection Hup as <-. eexists. split; [done|].
  unfold same_spread. simpl. split_and!; [done | done |].
  unfold deviations at 1 2. simpl. by rewrite !deviations_insert, Hdev.
Qed.

Lemma same_spread_refl s : same_spread s s.
Proof. done. Qed.

Lemma update_seq_same_spread (rs1 rs2 : list T) s t s1 :
  length rs1 = length rs2 -> same_spread s t -> update_seq rs1 s = Ok s1 ->
  exists t1, update_seq rs2 t = Ok t1 /\ same_spread s1 t1.
Proof.
  revert rs2 s t. induction rs1 as [|r1 rs1 IH]; intros [|r2 rs2] s t Hlen Hsame;
    simpl in *; try done.
  - intros [= <-]. by exists t.
  - unfold mbind, result_bind. destruct (update r1 s) as [s'|] eqn:Hup; [|done].
    destruct (update_same_spread s t r1 r2 s' Hsame Hup) as (t' & -> & Hsame').
    apply IH; [lia | done].
Qed.
End SpreadFacts.

(** X4. The standard deviations do not depend on the rewards: two sequences
    of calls of [update] of the same length on the same object either both
    raise or both return, and when they return they leave the same standard
    deviation at every arm. *)
Theorem update_seq_deviations_reward_free {T : Type} `{Arith T}
    (s : LTS T) (rs1 rs2 : list T) (s1 : LTS T) :
  length rs1 = length rs2 -> update_seq rs1 s = Ok s1 ->
  exists s2, update_seq rs2 s = Ok s2 /\ deviations s1 = deviations s2.
Proof.
  intros Hlen Hup.
  destruct (update_seq_same_spread rs1 rs2 s s s1 Hlen (same_spread_refl s) Hup)
    as (s2 & Hup2 & _ & _ & Hdev).
  by exists s2.
Qed.

Lemma update_seq_deviations_reward_free_witness :
  exists s2, update_seq [-1.0; 100.0]%float (scenario 1) = Ok s2 /\
    deviations
      {| _arms := [(3.5, 3.0); (4.7493059411438079, 0.070691044443940962);
                   (3.5, 3.0)]%float;
         _observation_noise := 0.1%float;
         _last_arm_pulled := Some 1%nat |} = deviations s2.
Proof.
  apply (update_seq_deviations_reward_free (scenario 1) [5.0; 4.5]%float
           [-1.0; 100.0]%float); [reflexivity | vm_compute; reflexivity].
Defined.

(** ** The generator of [select] *)

Section GeneratorFacts.
Context {T : Type} `{Arith T} {G : Type} (gauss : T -> T -> G -> T * G).

Lemma max_scan_generator (arms : list (belief T)) k item v0 (g : G) :
  (max_scan gauss (enumerate_from k arms) item v0 g).2 = generator_after gauss arms g.
Proof.
  revert k item v0 g. induction arms as [|arm rest IH]; intros k item v0 g; simpl; [done|].
  unfold key. simpl. destruct (gauss arm.1 arm.2 g) as [val g']. simpl.
  destruct (fltb v0 val); apply IH.
Qed.
End GeneratorFacts.

(** X5. A call of [select] that returns has drawn exactly one value per arm,
    in the order of the arms, whichever arm wins: the generator it leaves is
    the one after a draw for each arm. *)
Theorem select_draws_once_per_arm {T : Type} `{Arith T} {G : Type}
    (gauss : T -> T -> G -> T * G) (s s' : LTS T) (g g' : G) (i : nat) :
  select gauss s g = Ok (i, s', g') ->
  g' = generator_after gauss (_arms s) g /\
  length (draws gauss (_arms s) g) = length (_arms s).
Proof.
  intros Hsel. split; [|apply length_draws].
  destruct (_arms s) as [|arm rest] eqn:Harms.
  - unfold select, py_max, mbind, result_bind in Hsel. by rewrite Harms in Hsel.
  - rewrite (select_unfold gauss s g arm rest Harms) in Hsel. simpl.
    destruct (gauss arm.1 arm.2 g) as [val g1]. simpl in *.
    injection Hsel as _ _ <-. apply max_scan_generator.
Qed.

Lemma select_draws_once_per_arm_witness :
  [9.0; 9.5]%float
    = generator_after deviates (_arms (scenario 0)) [0.5; 1.0; 1.0; 9.0; 9.5]%float /\
  length (draws deviates (_arms (scenario 0)) [0.5; 1.0; 1.0; 9.0; 9.5]%float)
    = length (_arms (scenario 0)).
Proof.
  apply (select_draws_once_per_arm deviates (scenario 0) (scenario 1) _ _ 1%nat).
  vm_compute. reflexivity.
Defined.

(** ** [select] followed by [update] *)

(** X6. When [select] returns the index [i] and the next [update(reward)]
    returns, the object differs from the one before [select] in the arm
    pulled last and in the belief of the arm [i] only, and that belief is the
    conjugate posterior of the belief the arm [i] had. *)
Theorem select_then_update {T : Type} `{Arith T} {G : Type}
    (gauss : T -> T -> G -> T * G) (s s1 s2 : LTS T) (g g1 : G) (i : nat) (reward : T) :
  select gauss s g = Ok (i, s1, g1) ->
  update reward s1 = Ok s2 ->
  exists mean sd, _arms s !! i = Some (mean, sd) /\
    let arm_variance := fmul sd sd in
    let ob_variance := fmul (_observation_noise s) (_observation_noise s) in
    s2 = {| _arms := <[i := (fdiv (fadd (fmul arm_variance reward) (fmul ob_variance mean))
                                  (fadd arm_variance ob_variance),
                             fsqrt (fdiv (fmul arm_variance ob_variance)
                                         (fadd arm_variance ob_variance)))]> (_arms s);
            _observation_noise := _observation_noise s;
            _last_arm_pulled := Some i |}.
Proof.
  intros [Hi ->]%select_inv Hup.
  destruct (lookup_lt_is_Some_2 _ _ Hi) as [[mean sd] Harm].
  exists mean, sd. split; [done|].
  rewrite (update_unfold
             {| _arms := _arms s;
                _observation_noise := _observation_noise s;
                _last_arm_pulled := Some i |} reward i mean sd eq_refl Harm) in Hup.
  cbv zeta in *. simpl in *.
  destruct (feqb _ _); [done|]. destruct (fltb _ _); [done|]. by injection Hup as <-.
Qed.

Lemma select_then_update_witness :
  exists mean sd, _arms (scenario 0) !! 1%nat = Some (mean, sd) /\
    let arm_variance := fmul sd sd in
    let ob_variance := fmul (_observation_noise (scenario 0)) (_observation_noise (scenario 0)) in
    {| _arms := [(3.5, 3.0); (4.9983351831298553, 0.099944490697915445); (3.5, 3.0)]%float;
       _observation_noise := 0.1%float;
       _last_arm_pulled := Some 1%nat |}
    = {| _arms := <[1%nat := (fdiv (fadd (fmul arm_variance 5.0%float) (fmul ob_variance mean))
                                  (fadd arm_variance ob_variance),
                             fsqrt (fdiv (fmul arm_variance ob_variance)
                                         (fadd arm_variance ob_variance)))]>
                    (_arms (scenario 0));
         _observation_noise := _observation_noise (scenario 0);
         _last_arm_pulled := Some 1%nat |}.
Proof.
  apply (select_then_update deviates (scenario 0) (scenario 1) _
           [0.5; 1.0; 1.0]%float [] 1%nat 5.0%float); vm_compute; reflexivity.
Defined.

(** ** The order of the rewards *)

(** In binary64 the order of two rewards can show in the last digits of the
    mean; the standard deviation is the same (X4). *)
Example update_seq_order_binary64 :
  update_seq [5.0; 4.5]%float (scenario 1)
    = Ok {| _arms := [(3.5, 3.0); (4.7493059411438079, 0.070691044443940962);
                      (3.5, 3.0)]%float;
            _observation_noise := 0.1%float;
            _last_arm_pulled := Some 1%nat |} /\
  update_seq [4.5; 5.0]%float (scenario 1)
    = Ok {| _arms := [(3.5, 3.0); (4.7493059411438088, 0.070691044443940962);
                      (3.5, 3.0)]%float;
            _observation_noise := 0.1%float;
            _last_arm_pulled := Some 1%nat |}.
Proof. split; vm_compute; reflexivity. Qed.

(** * The simulation *)

Section SimulationRounds.
Import Simulation.
Context {G : Type} (gauss : float -> float -> G -> float * G).

Lemma count_saveNumber (st : globals) :
  (0 <= saveNumber st <= 500)%Z ->
  saveNumber (count st) = ((saveNumber st + 1) mod 501)%Z.
Proof.
  intros Hsn. unfold count. simpl.
  destruct (Z.ltb_spec 500 (saveNumber st + 1)); simpl.
  - replace (saveNumber st + 1)%Z with 501%Z by lia. done.
  - by rewrite Z.mod_small by lia.
Qed.

(** The flush moves lines from [datalist] to the file and changes neither
    their order nor anything else. *)
Lemma count_lines (st : globals) :
  FILE (count st) ++ datalist (count st) = FILE st ++ datalist st /\
  cumulative_reward (count st) = cumulative_reward st /\
  highestObsScore (count st) = highestObsScore st /\
  highestObs (count st) = highestObs st /\
  observation_noise (count st) = observation_noise st /\
  stdout (count st) = stdout st.
Proof.
  unfold count. simpl. destruct (500 <? saveNumber st + 1)%Z; simpl; [|done].
  by rewrite app_nil_r.
Qed.

(** A round that returns: the bandit keeps its arms, the globals are those of
    [count] with the reward added. *)
Lemma round_inv (bandit bandit' : LTS float) (st st' : globals) (g g' : G) :
  round gauss bandit st g = Ok (bandit', st', g') ->
  length (_arms bandit') = length (_arms bandit) /\
  _observation_noise bandit' = _observation_noise bandit /\
  exists reward, st' = earn reward (count st).
Proof.
  unfold round, mbind, result_bind.
  destruct (select gauss bandit g) as [[[i b1] g1]|] eqn:Hsel; [|done].
  destruct (arms !! i) as [arm|]; [|done].
  destruct (gauss arm.1 arm.2 g1) as [reward g2].
  destruct (update reward b1) as [b2|] eqn:Hup; [|done].
  intros [= <- <- <-].
  apply select_inv in Hsel as [_ ->].
  destruct (update_inv _ _ _ Hup) as (j & a & b & _ & _ & ->). simpl.
  rewrite length_insert. split_and!; [done | done |]. by exists reward.
Qed.

(** A round raises neither [TypeError] nor [IndexError] when the bandit has
    as many arms as the environment. *)
Lemma round_errors (bandit : LTS float) (st : globals) (g : G) (e : exn) :
  length (_arms bandit) = length arms ->
  round gauss bandit st g = Raise e ->
  e = ZeroDivisionError \/ e = ValueError.
Proof.
  intros Hlen. unfold round, mbind, result_bind.
  destruct (select_ok gauss bandit g) as (i & b1 & g1 & Hsel).
  { intros Hnil. by rewrite Hnil in Hlen. }
  rewrite Hsel. apply select_inv in Hsel as [Hi ->].
  destruct (lookup_lt_is_Some_2 arms i) as [arm ->]; [by rewrite <- Hlen|].
  destruct (gauss arm.1 arm.2 g1) as [reward g2].
  destruct (lookup_lt_is_Some_2 _ _ Hi) as [[m sd] Harm].
  rewrite (update_unfold
             {| _arms := _arms bandit;
                _observation_noise := _observation_noise bandit;
                _last_arm_pulled := Some i |} reward i m sd eq_refl Harm).
  cbv zeta. destruct (feqb _ _); [intros [= <-]; by left|].
  destruct (fltb _ _); [intros [= <-]; by right | done].
Qed.

Lemma rounds_inv (n : nat) (bandit bandit' : LTS float) (st st' : globals) (g g' : G) :
  (0 <= saveNumber st <= 500)%Z ->
  rounds gauss n bandit st g = Ok (bandit', st', g') ->
  saveNumber st' = ((saveNumber st + Z.of_nat n) mod 501)%Z /\
  FILE st' ++ datalist st' = FILE st ++ datalist st /\
  highestObsScore st' = highestObsScore st /\
  highestObs st' = highestObs st /\
  observation_noise st' = observation_noise st /\
  stdout st' = stdout st.
Proof.
  revert bandit st g. induction n as [|n IH]; intros bandit st g Hsn.
  - intros [= <- <- <-]. rewrite Z.add_0_r, Z.mod_small by lia. done.
  - cbn [rounds]. unfold mbind, result_bind.
    destruct (round gauss bandit st g) as [[[b1 st1] g1]|] eqn:Hround; [|done].
    apply round_inv in Hround as (_ & _ & reward & ->). intros Hrest.
    pose proof (count_saveNumber st Hsn) as Hsn1.
    pose proof (count_lines st) as (Hlines & _ & Hscore & Hob & Hnoise & Hout).
    apply IH in Hrest as (Hsn' & Hlines' & Hscore' & Hob' & Hnoise' & Hout').
    2: { simpl. rewrite Hsn1. pose proof (Z.mod_pos_bound (saveNumber st + 1) 501). lia. }
    simpl in *. split_and!; try congruence.
    rewrite Hsn', Hsn1, Zplus_mod_idemp_l. f_equal. lia.
Qed.

(** What [count] does to the file and to the pending lines. *)
Lemma count_flush (st : globals) :
  if (saveNumber st + 1 <? 501)%Z
  then FILE (count st) = FILE st /\ datalist (count st) = datalist st
  else FILE (count st) = FILE st ++ datalist st /\ datalist (count st) = [].
Proof.
  unfold count. simpl.
  destruct (Z.ltb_spec (saveNumber st + 1) 501), (Z.ltb_spec 500 (saveNumber st + 1));
    simpl; (done || lia).
Qed.

(** The rounds append nothing to the pending lines; these are written to
    the file, in their order, by the round that takes [saveNumber] past
    500. *)
Lemma rounds_flush (n : nat) (bandit bandit' : LTS float) (st st' : globals) (g g' : G) :
  (0 <= saveNumber st <= 500)%Z ->
  rounds gauss n bandit st g = Ok (bandit', st', g') ->
  if (saveNumber st + Z.of_nat n <? 501)%Z
  then FILE st' = FILE st /\ datalist st' = datalist st
  else FILE st' = FILE st ++ datalist st /\ datalist st' = [].
Proof.
  revert bandit st g. induction n as [|n IH]; intros bandit st g Hsn.
  - intros [= <- <- <-]. rewrite Z.add_0_r.
    destruct (Z.ltb_spec (saveNumber st) 501); [done | lia].
  - cbn [rounds]. unfold mbind, result_bind.
    destruct (round gauss bandit st g) as [[[b1 st1] g1]|] eqn:Hround; [|done].
    apply round_inv in Hround as (_ & _ & reward & ->). intros Hrest.
    pose proof (count_saveNumber st Hsn) as Hsn1.
    pose proof (count_flush st) as Hcount.
    apply IH in Hrest.
    2: { simpl. rewrite Hsn1. pose proof (Z.mod_pos_bound (saveNumber st + 1) 501). lia. }
    simpl in Hrest. rewrite Hsn1 in Hrest.
    destruct (Z.ltb_spec (saveNumber st + 1) 501) as [Hlt|Hge].
    + rewrite Z.mod_small in Hrest by lia. destruct Hcount as [Hfile Hdata].
      rewrite Hfile, Hdata in Hrest.
      replace (saveNumber st + Z.of_nat (S n))%Z
        with (saveNumber st + 1 + Z.of_nat n)%Z by lia. exact Hrest.
    + destruct Hcount as [Hfile Hdata]. rewrite Hfile, Hdata in Hrest.
      destruct (Z.ltb_spec (saveNumber st + Z.of_nat (S n)) 501); [lia|].
      destruct (_ <? 501)%Z; destruct Hrest as [-> ->]; by rewrite ?app_nil_r.
Qed.

Lemma rounds_errors (n : nat) (bandit : LTS float) (st : globals) (g : G) (e : exn) :
  length (_arms bandit) = length arms ->
  rounds gauss n bandit st g = Raise e ->
  e = ZeroDivisionError \/ e = ValueError.
Proof.
  revert bandit st g. induction n as [|n IH]; intros bandit st g Hlen; [done|].
  cbn [rounds]. unfold mbind, result_bind.
  destruct (round gauss bandit st g) as [[[b1 st1] g1]|e1] eqn:Hround.
  - apply round_inv in Hround as (Hlen1 & _). apply IH. by rewrite Hlen1.
  - intros [= <-]. by apply (round_errors bandit st g).
Qed.
End SimulationRounds.

Section SimulationSweeps.
Import Simulation.
Context {G : Type} (gauss : float -> float -> G -> float * G).
Context (format_summary : float -> Z -> float -> String.string).
Context (format_best : best -> best -> String.string).

Lemma best_ltb_trans (b : best) (x y : float) :
  best_ltb b x = true -> PrimFloat.ltb x y = true -> best_ltb b y = true.
Proof.
  destruct b as [|z]; simpl; intros Hx Hy.
  - exact (fltb_trans (T:=float) 0%float x y Hx Hy).
  - exact (fltb_trans (T:=float) z x y Hx Hy).
Qed.

(** A sweep that returns: one summary line more, the next noise, and the
    best score replaced when the sweep did strictly better. *)
Lemma sweep_inv (st st' : globals) (g g' : G) :
  (0 <= saveNumber st <= 500)%Z ->
  sweep gauss format_summary st g = Ok (st', g') ->
  exists c,
    saveNumber st' = ((saveNumber st + Z.of_nat T) mod 501)%Z /\
    FILE st' ++ datalist st'
      = FILE st ++ datalist st ++ [summary format_summary c (observation_noise st)] /\
    observation_noise st' = (observation_noise st + 0.1)%float /\
    stdout st' = stdout st /\
    (if best_ltb (highestObsScore st) c
     then highestObsScore st' = Seen c /\ highestObs st' = Seen (observation_noise st)
     else highestObsScore st' = highestObsScore st /\ highestObs st' = highestObs st).
Proof.
  intros Hsn. unfold sweep, mbind, result_bind. cbn [__init__].
  destruct (rounds _ _ _ _ _) as [[[b1 st1] g1]|] eqn:Hrounds; [|done].
  intros [= <- <-].
  apply rounds_inv in Hrounds as (Hsn1 & Hlines & Hscore & Hob & Hnoise & Hout); [|done].
  simpl in *. exists (cumulative_reward st1). unfold report, summary. simpl.
  rewrite Hscore, Hob, Hnoise, Hout. split_and!; try done.
  - by rewrite app_assoc, Hlines, <- app_assoc.
  - by destruct (best_ltb _ _).
Qed.

Lemma sweep_errors (st : globals) (g : G) (e : exn) :
  sweep gauss format_summary st g = Raise e ->
  e = ZeroDivisionError \/ e = ValueError.
Proof.
  unfold sweep, mbind, result_bind. cbn [__init__].
  destruct (rounds _ _ _ _ _) as [[[b1 st1] g1]|e1] eqn:Hrounds; [done|].
  intros [= <-]. by apply rounds_errors in Hrounds.
Qed.

Lemma sweeps_inv (n : nat) (st st' : globals) (g g' : G) :
  (0 <= saveNumber st <= 500)%Z ->
  sweeps gauss format_summary n st g = Ok (st', g') ->
  exists cs, length cs = n /\
    FILE st' ++ datalist st'
      = FILE st ++ datalist st
        ++ zip_with (summary format_summary) cs (noises n (observation_noise st)) /\
    stdout st' = stdout st /\
    (forall c, c ∈ cs -> best_ltb (highestObsScore st') c = false) /\
    ((highestObsScore st' = highestObsScore st /\ highestObs st' = highestObs st) \/
     exists k c ob, cs !! k = Some c /\ noises n (observation_noise st) !! k = Some ob /\
       highestObsScore st' = Seen c /\ highestObs st' = Seen ob /\
       best_ltb (highestObsScore st) c = true).
Proof.
  revert st g. induction n as [|n IH]; intros st g Hsn.
  - intros [= <- <-]. exists []. simpl. rewrite app_nil_r.
    split_and!; [done | done | done | | by left]. intros c Hc. by apply elem_of_nil in Hc.
  - cbn [sweeps]. unfold mbind, result_bind.
    destruct (sweep gauss format_summary st g) as [[st1 g1]|] eqn:Hsweep; [|done].
    apply sweep_inv in Hsweep as (c1 & Hsn1 & Hlines1 & Hnoise1 & Hout1 & Hbest1); [|done].
    intros Hrest. apply IH in Hrest as (cs & Hlen & Hlines & Hout & Hmax & Hbest).
    2: { rewrite Hsn1. pose proof (Z.mod_pos_bound (saveNumber st + Z.of_nat T) 501). lia. }
    exists (c1 :: cs). cbn [noises zip_with length]. rewrite Hnoise1 in Hlines, Hbest.
    split_and!; [by rewrite Hlen | | congruence | |].
    + rewrite Hlines, app_assoc, Hlines1, <- !app_assoc. done.
    + intros c [-> | Hc]%elem_of_cons; [|by apply Hmax].
      destruct (best_ltb (highestObsScore st) c1) eqn:Hlt.
      * destruct Hbest1 as [Hs1 _].
        destruct Hbest as [[-> _] | (k & c & ob & _ & _ & -> & _ & Hc)]; rewrite Hs1 in *; simpl in *.
        -- exact (fltb_irrefl (T:=float) c1).
        -- exact (fltb_asym (T:=float) c1 c Hc).
      * destruct Hbest1 as [Hs1 _].
        destruct Hbest as [[-> _] | (k & c & ob & _ & _ & -> & _ & Hc)]; rewrite Hs1 in *.
        -- done.
        -- simpl. destruct (PrimFloat.ltb c c1) eqn:Hcc; [|done].
           by rewrite (best_ltb_trans _ c c1 Hc Hcc) in Hlt.
    + destruct (best_ltb (highestObsScore st) c1) eqn:Hlt.
      * destruct Hbest1 as [Hs1 Ho1]. right.
        destruct Hbest as [[-> ->] | (k & c & ob & Hk & Hob & -> & -> & Hc)].
        -- exists 0%nat, c1, (observation_noise st). by rewrite Hs1, Ho1.
        -- exists (S k), c, ob. simpl. split_and!; try done.
           rewrite Hs1 in Hc. simpl in Hc. by apply (best_ltb_trans _ c1 c).
      * destruct Hbest1 as [Hs1 Ho1].
        destruct Hbest as [[-> ->] | (k & c & ob & Hk & Hob & -> & -> & Hc)].
        -- by left.
        -- right. exists (S k), c, ob. simpl. split_and!; try done. by rewrite <- Hs1.
Qed.

Lemma sweeps_errors (n : nat) (st : globals) (g : G) (e : exn) :
  sweeps gauss format_summary n st g = Raise e ->
  e = ZeroDivisionError \/ e = ValueError.
Proof.
  revert st g. induction n as [|n IH]; intros st g; [done|].
  cbn [sweeps]. unfold mbind, result_bind.
  destruct (sweep gauss format_summary st g) as [[st1 g1]|e1] eqn:Hsweep.
  - apply IH.
  - intros [= <-]. by apply (sweep_errors st g).
Qed.
End SimulationSweeps.

Section SimulationClaims.
Import Simulation.
Context {G : Type} (gauss : float -> float -> G -> float * G).
Context (format_summary : float -> Z -> float -> String.string).
Context (format_best : best -> best -> String.string).

(** What a run of the script that returns leaves behind. *)
Lemma simulation_inv (g g' : G) (st : globals) :
  simulation gauss format_summary format_best g = Ok (st, g') ->
  exists cs, length cs = ob_n /\
    FILE st = zip_with (summary format_summary) cs (noises ob_n 0.1)
              ++ [String.append "Done with the simulation."%string newline] /\
    datalist st = [] /\
    stdout st = ["Starting simulation."%string; "Done with the simulation."%string;
                 format_best (highestObs st) (highestObsScore st)] /\
    (forall c, c ∈ cs -> best_ltb (highestObsScore st) c = false) /\
    ((highestObsScore st = Zero /\ highestObs st = Zero) \/
     exists k c ob, cs !! k = Some c /\ noises ob_n 0.1 !! k = Some ob /\
       highestObsScore st = Seen c /\ highestObs st = Seen ob /\
       PrimFloat.ltb 0 c = true).
Proof.
  unfold simulation, mbind, result_bind.
  destruct (sweeps _ _ _ _ _) as [[st1 g1]|] eqn:Hsweeps; [|done].
  intros [= <- <-].
  apply sweeps_inv in Hsweeps as (cs & Hlen & Hlines & Hout & Hmax & Hbest);
    [|simpl; lia].
  exists cs. cbn in Hlines, Hout, Hbest |- *.
  split_and!; try done.
  - by rewrite app_assoc, Hlines.
  - by rewrite Hout.
Qed.

(** X11. The pending lines are flushed to the file every 501st round,
    whatever the sweep.  After [n] rounds that return, [saveNumber] is the one
    before plus [n], modulo 501; as long as the count has not passed 500 the
    file and the pending lines are untouched; once it has, every line that
    was pending is in the file, after the lines the file had and in the same
    order, and no line is pending. *)
Theorem rounds_flush_every_501 (n : nat) (bandit bandit' : LTS float)
    (st st' : globals) (g g' : G) :
  (0 <= saveNumber st <= 500)%Z ->
  rounds gauss n bandit st g = Ok (bandit', st', g') ->
  saveNumber st' = ((saveNumber st + Z.of_nat n) mod 501)%Z /\
  if (saveNumber st + Z.of_nat n <? 501)%Z
  then FILE st' = FILE st /\ datalist st' = datalist st
  else FILE st' = FILE st ++ datalist st /\ datalist st' = [].
Proof.
  intros Hsn Hrounds. split.
  - by apply rounds_inv in Hrounds as (? & _).
  - by apply (rounds_flush gauss n bandit bandit' st st' g g').
Qed.

(** X12. Batching loses nothing: when the script returns, the file holds one
    summary line per sweep, in the order of the sweeps and with the noise of
    each sweep, followed by the closing line; [datalist] is empty and the
    standard output holds the three strings printed. *)
Theorem simulation_file_contents (g g' : G) (st : globals) :
  simulation gauss format_summary format_best g = Ok (st, g') ->
  exists cs, length cs = ob_n /\
    FILE st = zip_with (summary format_summary) cs (noises ob_n 0.1)
              ++ [String.append "Done with the simulation."%string newline] /\
    datalist st = [] /\
    stdout st = ["Starting simulation."%string; "Done with the simulation."%string;
                 format_best (highestObs st) (highestObsScore st)].
Proof.
  intros (cs & Hlen & Hfile & Hdata & Hout & _)%simulation_inv. by exists cs.
Qed.

(** X13. When the script returns, no sweep earned more than
    [highestObsScore]; it is still the int 0, with [highestObs], when no
    sweep earned more than 0, and otherwise it is the cumulative reward of a
    sweep that earned more than 0, with [highestObs] the noise of that
    sweep. *)
Theorem simulation_best_score (g g' : G) (st : globals) :
  simulation gauss format_summary format_best g = Ok (st, g') ->
  exists cs, length cs = ob_n /\
    FILE st = zip_with (summary format_summary) cs (noises ob_n 0.1)
              ++ [String.append "Done with the simulation."%string newline] /\
    (forall c, c ∈ cs -> best_ltb (highestObsScore st) c = false) /\
    ((highestObsScore st = Zero /\ highestObs st = Zero) \/
     exists k c ob, cs !! k = Some c /\ noises ob_n 0.1 !! k = Some ob /\
       highestObsScore st = Seen c /\ highestObs st = Seen ob /\
       PrimFloat.ltb 0 c = true).
Proof.
  intros (cs & Hlen & Hfile & _ & _ & Hmax & Hbest)%simulation_inv. by exists cs.
Qed.

(** X14. The script never ends in [TypeError] or [IndexError]: [update] is
    always called after a [select], and the arm selected is always an arm of
    the environment. *)
Theorem simulation_never_type_or_index_error (g : G) :
  simulation gauss format_summary format_best g <> Raise TypeError /\
  simulation gauss format_summary format_best g <> Raise IndexError.
Proof.
  assert (forall e, simulation gauss format_summary format_best g = Raise e ->
            e = ZeroDivisionError \/ e = ValueError) as Herr.
  { intros e. unfold simulation, mbind, result_bind.
    destruct (sweeps _ _ _ _ _) as [[st1 g1]|e1] eqn:Hsweeps; [done|].
    intros [= <-]. by apply sweeps_errors in Hsweeps. }
  split; intros [? | ?]%Herr; done.
Qed.
End SimulationClaims.

(** The observation noise of the ten sweeps: [0.1] added nine times, with
    the rounding of each addition. *)
Example simulation_noises :
  Simulation.noises Simulation.ob_n 0.1
  = [0.1; 0.2; 0.30000000000000004; 0.4; 0.5; 0.6; 0.7; 0.79999999999999993;
     0.89999999999999991; 0.99999999999999989]%float.
Proof. vm_compute. reflexivity. Qed.

(** 501 rounds after the first summary line has been appended to the
    pending lines: the line is in the file and nothing is pending. *)
Lemma rounds_flush_every_501_witness :
  exists bandit' st' g',
    Simulation.rounds (@deviates float binary64) 501 (scenario 0)
      (Simulation.report blank_summary Simulation.initial) [] = Ok (bandit', st', g') /\
    Simulation.saveNumber st' = 0%Z /\
    Simulation.FILE st'
      = [String.append "Cumulative reward"%string
           (String.append Simulation.newline Simulation.newline)] /\
    Simulation.datalist st' = [].
Proof.
  eexists _, _, _. split; [vm_compute; reflexivity|].
  exact (rounds_flush_every_501 deviates 501 (scenario 0) _
           (Simulation.report blank_summary Simulation.initial) _ [] _
           ltac:(vm_compute; split; discriminate) ltac:(vm_compute; reflexivity)).
Defined.

Lemma simulation_file_contents_witness :
  exists st g',
    Simulation.simulation (@deviates float binary64) blank_summary blank_best [] = Ok (st, g') /\
    exists cs, length cs = Simulation.ob_n /\
      Simulation.FILE st
        = zip_with (Simulation.summary blank_summary) cs
            (Simulation.noises Simulation.ob_n 0.1)
          ++ [String.append "Done with the simulation."%string Simulation.newline] /\
      Simulation.datalist st = [] /\
      Simulation.stdout st
        = ["Starting simulation."%string; "Done with the simulation."%string;
           blank_best (Simulation.highestObs st) (Simulation.highestObsScore st)].
Proof.
  eexists _, _. split; [vm_compute; reflexivity|].
  eapply (simulation_file_contents deviates blank_summary blank_best [] _ _).
  vm_compute. reflexivity.
Defined.

Lemma simulation_best_score_witness :
  exists st g',
    Simulation.simulation (@deviates float binary64) blank_summary blank_best [] = Ok (st, g') /\
    exists cs, length cs = Simulation.ob_n /\
      Simulation.FILE st
        = zip_with (Simulation.summary blank_summary) cs
            (Simulation.noises Simulation.ob_n 0.1)
          ++ [String.append "Done with the simulation."%string Simulation.newline] /\
      (forall c, c ∈ cs -> Simulation.best_ltb (Simulation.highestObsScore st) c = false) /\
      ((Simulation.highestObsScore st = Simulation.Zero /\
        Simulation.highestObs st = Simulation.Zero) \/
       exists k c ob, cs !! k = Some c /\
         Simulation.noises Simulation.ob_n 0.1 !! k = Some ob /\
         Simulation.highestObsScore st = Simulation.Seen c /\
         Simulation.highestObs st = Simulation.Seen ob /\
         PrimFloat.ltb 0 c = true).
Proof.
  eexists _, _. split; [vm_compute; reflexivity|].
  eapply (simulation_best_score deviates blank_summary blank_best [] _ _).
  vm_compute. reflexivity.
Defined.
